(** * The vinxi middleware layer: adapter, phase pool and chain executor

    A shallow embedding of [adapter.go] and [layer.go].  Handlers are
    state transformers over the request/response pair that may panic;
    the [Layer] is threaded explicitly through every method; the [*Stack]
    pointers held by the [Pool] live in a store of their own, so that the
    pointer fetched once by [use] keeps denoting the same object whatever
    a self-registering handler does to the pool in between. *)

From stdpp Require Import gmap strings list sorting.

Open Scope string_scope.
Open Scope list_scope.

(** ** The request/response pair *)

(** Values carried by [panic] and stored in the request-scoped context
    ([interface{}] in the source). *)
Inductive Value :=
  | VString (s : string)
  | VInt (n : Z).

(** What a handler did to the [http.ResponseWriter]. *)
Inductive Event :=
  | WriteHeader (code : Z)
  | WriteBody (body : string).

(** The pair [(w http.ResponseWriter, r *http.Request)] every handler
    receives: the response written so far and the request-scoped store of
    package [context]. *)
Record World := mkWorld {
  response : list Event;
  context : gmap string Value }.

Definition emit (e : Event) (w : World) : World :=
  mkWorld (response w ++ [e]) (context w).

(** [context.Set(r, key, v)] *)
Definition context_Set (w : World) (key : string) (v : Value) : World :=
  mkWorld (response w) (<[key := v]> (context w)).

(** A call either returns or panics; what it did to the state before
    panicking stays done.  [recover()] yields a non-nil value exactly when
    the goroutine is panicking ([panic(nil)] is turned into a run-time
    error value by the Go runtime), so a panic always carries a [Value]. *)
Inductive Res (S : Type) :=
  | Ret (s : S)
  | Pan (re : Value) (s : S).
Arguments Ret {S} s.
Arguments Pan {S} re s.

Definition returned {S} (r : Res S) : bool :=
  match r with Ret _ => true | Pan _ _ => false end.

Definition state_of {S} (r : Res S) : S :=
  match r with Ret s => s | Pan _ s => s end.

(** ** adapter.go: handler types *)

(** [http.Handler]: a value with [ServeHTTP(w, r)].  Handlers and function
    values are closures; where the code tests a handler against nil (the
    terminal given to [Run], an entry of the memo, the result of
    [AdaptFunc]) the model has an [option], and the nil function that
    [AdaptFunc] hands back as that result is a value of its own in [Any]. *)
Definition http_Handler := World -> Res World.

(** [type HandlerFunc func(http.ResponseWriter, *http.Request)] *)
Definition HandlerFunc := World -> Res World.

(** [type HandlerFuncNext func(http.ResponseWriter, *http.Request, http.Handler)] *)
Definition HandlerFuncNext := World -> http_Handler -> Res World.

(** [type MiddlewareFunc func(http.Handler) http.Handler] *)
Definition MiddlewareFunc := http_Handler -> http_Handler.

(** [type MiddlewareHandlerFunc func(http.Handler) func(http.ResponseWriter, *http.Request)] *)
Definition MiddlewareHandlerFunc := http_Handler -> HandlerFunc.

(** ** The priority stack *)

Definition Priority := Z.

(** Modelled from the spec: the [Stack] type with its [Push] and [Join]
    methods, which layer.go uses and another file of the package declares.
    [Push] appends the handler tagged with its priority;
    [Join] projects the entries in execution order: by priority, lower
    first, and by insertion order among equal priorities. *)
Definition Stack := list (Priority * MiddlewareFunc).

Definition Push (order : Priority) (h : MiddlewareFunc) (s : Stack) : Stack :=
  s ++ [(order, h)].

Fixpoint place (e : Priority * MiddlewareFunc) (s : Stack) : Stack :=
  match s with
  | [] => [e]
  | x :: s' => if (e.1 <=? x.1)%Z then e :: x :: s' else x :: place e s'
  end.

Fixpoint ordered (s : Stack) : Stack :=
  match s with
  | [] => []
  | e :: s' => place e (ordered s')
  end.

Definition Join (s : Stack) : list MiddlewareFunc := (ordered s).*2.

(** The order of execution: priorities never decrease along it. *)
Definition by_priority (e1 e2 : Priority * MiddlewareFunc) : Prop := (e1.1 ≤ e2.1)%Z.

(** ** layer.go: the layer *)

Definition ErrorPhase : string := "error".
Definition RequestPhase : string := "request".

Definition FinalHandler : http_Handler := fun w =>
  Ret (emit (WriteBody "vinxi: cannot route request") (emit (WriteHeader 502) w)).

Definition FinalErrorHandler : http_Handler := fun w =>
  Ret (emit (WriteBody "vinxi: internal server error") (emit (WriteHeader 500) w)).

(** Addresses of the [Stack] objects allocated by [&Stack{}]. *)
Definition ptr := positive.

(** [type Layer struct].  [memo] is a [map[string]http.Handler]: a key may
    be present with a nil handler ([Some None]).  [Pool] is a
    [map[string]*Stack]; the objects pointed to are in [stacks]. *)
Record Layer := mkLayer {
  finalHandler : http_Handler;
  memo : gmap string (option http_Handler);
  Pool : gmap string ptr;
  stacks : gmap ptr Stack }.

Definition set_finalHandler (fn : http_Handler) (s : Layer) : Layer :=
  mkLayer fn (memo s) (Pool s) (stacks s).
Definition set_memo (m : gmap string (option http_Handler)) (s : Layer) : Layer :=
  mkLayer (finalHandler s) m (Pool s) (stacks s).
Definition set_Pool (p : gmap string ptr) (s : Layer) : Layer :=
  mkLayer (finalHandler s) (memo s) p (stacks s).
Definition set_stacks (st : gmap ptr Stack) (s : Layer) : Layer :=
  mkLayer (finalHandler s) (memo s) (Pool s) st.

(** The stack a pointer denotes. *)
Definition deref (s : Layer) (p : ptr) : Stack := default [] (stacks s !! p).

(** The stack registered for a phase, if the pool has one. *)
Definition stack_of (s : Layer) (phase : string) : option Stack :=
  deref s <$> Pool s !! phase.

(** The pool of a layer built by the methods below: every pointer denotes
    a stack, and no two phases share one. *)
Definition well_formed (s : Layer) : Prop :=
  (∀ phase p, Pool s !! phase = Some p → is_Some (stacks s !! p)) ∧
  (∀ phase1 phase2 p, Pool s !! phase1 = Some p → Pool s !! phase2 = Some p → phase1 = phase2).

(** ** adapter.go: values of unknown shape *)

(** A value of a defined (named) type, given by the methods that decide the
    interface assertions of the package: [ServeHTTP] ([http.Handler]),
    [HandleHTTP] ([Handler]) and [Register] ([Registrable]).  The latter
    receives the layer and may call any of its methods. *)
Record Object := mkObject {
  ServeHTTP : option http_Handler;
  HandleHTTP : option HandlerFuncNext;
  Register : option (Layer -> Res Layer) }.

(** The dynamic content of an [interface{}] argument: a function of one of
    the four literal function types the adapter asserts, a value of a
    defined type, or something else.  [ANilMiddleware] is the nil value of
    type [func(http.Handler) http.Handler]: the first assertion of
    [AdaptFunc] holds of it, and it is returned as it is, the nil
    [MiddlewareFunc].  The nil functions of the other three types are
    wrapped in a closure like any function and fail only when called;
    they are not values of the model, which has no handler that faults
    while the chain is being built. *)
Inductive Any :=
  | AMiddleware (f : http_Handler -> http_Handler)
  | ANilMiddleware
  | AMiddlewareHandler (f : http_Handler -> World -> Res World)
  | ANext (f : World -> http_Handler -> Res World)
  | AFunc (f : World -> Res World)
  | AObject (o : Object)
  | AString (s : string)
  | AInt (n : Z)
  | ANil.

Definition adaptHandlerFunc (fn : HandlerFunc) : MiddlewareFunc :=
  fun h => fn.

Definition adaptMiddlewareHandlerFunc (fn : MiddlewareHandlerFunc) : MiddlewareFunc :=
  fun h => fn h.

Definition adaptHandlerFuncNext (fn : HandlerFuncNext) : MiddlewareFunc :=
  fun h => fun w => fn w h.

Definition adaptHandler (fn : HandlerFuncNext) : MiddlewareFunc :=
  fun h => fun w => fn w h.

Definition adaptNativeHandler (fn : http_Handler) : MiddlewareFunc :=
  fun h => fn.

(** The type assertions [h.(T)], in the order [AdaptFunc] tries them: the
    value when the assertion holds.  For the first, the value may be the
    nil function. *)
Definition is_middleware (h : Any) : option (option (http_Handler -> http_Handler)) :=
  match h with
  | AMiddleware f => Some (Some f)
  | ANilMiddleware => Some None
  | _ => None
  end.
Definition is_middleware_handler (h : Any) : option MiddlewareHandlerFunc :=
  match h with AMiddlewareHandler f => Some f | _ => None end.
Definition is_next (h : Any) : option HandlerFuncNext :=
  match h with ANext f => Some f | _ => None end.
Definition is_func (h : Any) : option HandlerFunc :=
  match h with AFunc f => Some f | _ => None end.
Definition is_http_Handler (h : Any) : option http_Handler :=
  match h with AObject o => ServeHTTP o | _ => None end.
Definition is_Handler (h : Any) : option HandlerFuncNext :=
  match h with AObject o => HandleHTTP o | _ => None end.
Definition is_Registrable (h : Any) : option (Layer -> Res Layer) :=
  match h with AObject o => Register o | _ => None end.

(** [func AdaptFunc(h interface{}) MiddlewareFunc]; [None] is the nil
    result. *)
Definition AdaptFunc (h : Any) : option MiddlewareFunc :=
  match is_middleware h with
  | Some mw => mw
  | None =>
  match is_middleware_handler h with
  | Some mw => Some (adaptMiddlewareHandlerFunc mw)
  | None =>
  match is_next h with
  | Some mw => Some (adaptHandlerFuncNext mw)
  | None =>
  match is_func h with
  | Some mw => Some (adaptHandlerFunc mw)
  | None =>
  match is_http_Handler h with
  | Some mw => Some (adaptNativeHandler mw)
  | None =>
  match is_Handler h with
  | Some mw => Some (adaptHandler mw)
  | None => None
  end end end end end end.

(** ** layer.go: construction and registration *)

(** [func New() *Layer] *)
Definition New : Layer := mkLayer FinalHandler ∅ ∅ ∅.

(** [func (s *Layer) Flush()]: a new, empty pool replaces the old one. *)
Definition Flush (s : Layer) : Layer := set_Pool ∅ s.

(** [func (s *Layer) UseFinalHandler(fn http.Handler)] *)
Definition UseFinalHandler (fn : http_Handler) (s : Layer) : Layer :=
  set_finalHandler fn s.

(** [stack.Push(priority, mw)] through the pointer [stack]. *)
Definition push_at (stack : ptr) (priority : Priority) (mw : MiddlewareFunc)
    (s : Layer) : Layer :=
  set_stacks (<[stack := Push priority mw (deref s stack)]> (stacks s)) s.

Definition unsupported : Value :=
  VString "vinxi: unsupported middleware interface".

(** [func register(layer *Layer, stack *Stack, priority Priority, handler interface{})] *)
Definition register (layer : Layer) (stack : ptr) (priority : Priority)
    (handler : Any) : Res Layer :=
  match is_Registrable handler with
  | Some r => r layer
  | None =>
      match AdaptFunc handler with
      | None => Pan unsupported layer
      | Some mw => Ret (push_at stack priority mw layer)
      end
  end.

(** The loop [for _, h := range handler { register(s, stack, priority, h) }];
    a panic leaves it at once. *)
Fixpoint register_each (s : Layer) (stack : ptr) (priority : Priority)
    (handler : list Any) : Res Layer :=
  match handler with
  | [] => Ret s
  | h :: rest =>
      match register s stack priority h with
      | Ret s' => register_each s' stack priority rest
      | Pan re s' => Pan re s'
      end
  end.

(** [s.memo[phase] = nil] *)
Definition flush_memo (phase : string) (s : Layer) : Layer :=
  set_memo (<[phase := None]> (memo s)) s.

(** [if s.Pool[phase] == nil { s.Pool[phase] = &Stack{} }] *)
Definition ensure_stack (phase : string) (s : Layer) : Layer :=
  match Pool s !! phase with
  | Some _ => s
  | None =>
      let p := fresh (dom (stacks s)) in
      set_Pool (<[phase := p]> (Pool s)) (set_stacks (<[p := []]> (stacks s)) s)
  end.

(** [func (s *Layer) use(phase string, priority Priority, handler ...interface{}) *Layer] *)
Definition use (s : Layer) (phase : string) (priority : Priority)
    (handler : list Any) : Res Layer :=
  let s := flush_memo phase s in
  let s := ensure_stack phase s in
  match Pool s !! phase with
  | Some stack => register_each s stack priority handler
  | None => Ret s
  end.

(** [func (s *Layer) UsePriority(phase string, priority Priority, handler ...interface{})] *)
Definition UsePriority (s : Layer) (phase : string) (priority : Priority)
    (handler : list Any) : Res Layer :=
  use s phase priority handler.

Section Normal_priority.

(** The constant [Normal] is declared next to [Priority], in another file
    of the package; its value is left open. *)
Variable Normal : Priority.

(** [func (s *Layer) Use(phase string, handler ...interface{})] *)
Definition Use (s : Layer) (phase : string) (handler : list Any) : Res Layer :=
  use s phase Normal handler.

End Normal_priority.

(** ** layer.go: running a phase *)

(** The two-valued map read [h, ok := s.memo[phase]]. *)
Definition memo_get (s : Layer) (phase : string) : option http_Handler * bool :=
  match memo s !! phase with
  | Some h => (h, true)
  | None => (None, false)
  end.

(** The loop [for i := len(queue) - 1; i >= 0; i-- { h = queue[i](h) }],
    entered with [n = len(queue)]: [n] indices remain, the next is [n - 1]. *)
Fixpoint wrap_down (queue : list MiddlewareFunc) (n : nat) (h : http_Handler)
    : http_Handler :=
  match n with
  | O => h
  | S i =>
      match queue !! i with
      | Some mw => wrap_down queue i (mw h)
      | None => h
      end
  end.

(** The statements of [Run] after the [defer]: the layer as they leave it
    and how the call ended. *)
Definition Run_body (s : Layer) (phase : string) (h : option http_Handler)
    (w : World) : Layer * Res World :=
  match memo_get s phase with
  | (Some hm, false) => (s, hm w)
  | _ =>
      let h := match h with None => finalHandler s | Some h => h end in
      match Pool s !! phase with
      | None => (s, h w)
      | Some stack =>
          let queue := Join (deref s stack) in
          let h := wrap_down queue (length queue) h in
          let s := set_memo (<[phase := Some h]> (memo s)) s in
          (s, h w)
      end
  end.

(** The deferred function of [Run], applied to the way the body ended.
    For the error phase it returns before [recover], and a panic goes on
    to the caller.  Otherwise a panic is recovered, stored under ["error"],
    and [Run] is called for the error phase; that inner call is a run of
    the error phase, whose own deferred function does nothing, so it is
    the body alone (see [Run_error_phase]). *)
Definition deferred (phase : string) (ended : Layer * Res World)
    : Layer * Res World :=
  if decide (phase = "error") then ended
  else
    match ended.2 with
    | Ret _ => ended
    | Pan re w =>
        Run_body ended.1 "error" (Some FinalErrorHandler) (context_Set w "error" re)
    end.

(** [func (s *Layer) Run(phase string, w http.ResponseWriter, r *http.Request, h http.Handler)] *)
Definition Run (s : Layer) (phase : string) (h : option http_Handler)
    (w : World) : Layer * Res World :=
  deferred phase (Run_body s phase h w).

(** ** The variant of [register] in the second copy of layer.go *)

Module Inline.

(** [func (s *Layer) register(phase string, priority Priority, handler ...interface{}) *Layer]:
    the same loop with the body of the helper written in place
    ([continue] where the helper returns). *)
Fixpoint each (s : Layer) (pool : ptr) (priority : Priority)
    (handler : list Any) : Res Layer :=
  match handler with
  | [] => Ret s
  | h :: rest =>
      match is_Registrable h with
      | Some mw =>
          match mw s with
          | Ret s' => each s' pool priority rest
          | Pan re s' => Pan re s'
          end
      | None =>
          match AdaptFunc h with
          | None => Pan (VString "vinci: unsupported middleware interface") s
          | Some mw => each (push_at pool priority mw s) pool priority rest
          end
      end
  end.

Definition register (s : Layer) (phase : string) (priority : Priority)
    (handler : list Any) : Res Layer :=
  let s := flush_memo phase s in
  let s := ensure_stack phase s in
  match Pool s !! phase with
  | Some pool => each s pool priority handler
  | None => Ret s
  end.

End Inline.

(** ** What the spec calls things *)

(** The terminal of a run: the handler passed in, or the final handler of
    the layer when none is. *)
Definition terminal (s : Layer) (h : option http_Handler) : http_Handler :=
  default (finalHandler s) h.

(** Composition right to left: the terminal is wrapped by the last handler
    of the sequence, the result by the one before, and so on. *)
Definition chain (queue : list MiddlewareFunc) (t : http_Handler) : http_Handler :=
  foldr (fun mw acc => mw acc) t queue.

(** The handler a run of [phase] executes: the terminal alone when the
    phase has no stack, the chain around it otherwise. *)
Definition compiled (s : Layer) (phase : string) (h : option http_Handler)
    : http_Handler :=
  match Pool s !! phase with
  | None => terminal s h
  | Some stack => chain (Join (deref s stack)) (terminal s h)
  end.

(** The layer after such a run: the chain is memoized when there is a
    stack. *)
Definition memoized (s : Layer) (phase : string) (h : option http_Handler) : Layer :=
  match Pool s !! phase with
  | None => s
  | Some _ => set_memo (<[phase := Some (compiled s phase h)]> (memo s)) s
  end.

(** The six shapes of section 4.1, in their priority order. *)
Inductive Shape :=
  | ChainFunc
  | ResultFunc
  | ContinuationFunc
  | SimpleFunc
  | DirectHandler
  | CapabilityObject.

Definition shapes : list Shape :=
  [ChainFunc; ResultFunc; ContinuationFunc; SimpleFunc; DirectHandler; CapabilityObject].

(** Whether a value has a given shape. *)
Definition has_shape (sh : Shape) (h : Any) : bool :=
  match sh, h with
  | ChainFunc, AMiddleware _ => true
  | ChainFunc, ANilMiddleware => true
  | ResultFunc, AMiddlewareHandler _ => true
  | ContinuationFunc, ANext _ => true
  | SimpleFunc, AFunc _ => true
  | DirectHandler, AObject o => match ServeHTTP o with Some _ => true | None => false end
  | CapabilityObject, AObject o => match HandleHTTP o with Some _ => true | None => false end
  | _, _ => false
  end.

(** The canonical form of a value taken as one given shape; nil ([None])
    when the value does not have that shape, and for the nil function,
    which is passed through as it is. *)
Definition normalize (sh : Shape) (h : Any) : option MiddlewareFunc :=
  match sh, h with
  | ChainFunc, AMiddleware f => Some f
  | ResultFunc, AMiddlewareHandler f => Some (fun next => f next)
  | ContinuationFunc, ANext f => Some (fun next w => f w next)
  | SimpleFunc, AFunc f => Some (fun _ => f)
  | DirectHandler, AObject o => (fun g => fun _ : http_Handler => g) <$> ServeHTTP o
  | CapabilityObject, AObject o => (fun g => fun next w => g w next) <$> HandleHTTP o
  | _, _ => None
  end.

(** First match wins. *)
Definition first_shape (h : Any) : option Shape :=
  head (filter (fun sh => has_shape sh h = true) shapes).

(** What registration accepts: a self-registering value, or a value to
    which the first of the six shapes it has gives a canonical form. *)
Definition supported (h : Any) : bool :=
  bool_decide (is_Some (is_Registrable h)) ||
  bool_decide (is_Some (first_shape h ≫= fun sh => normalize sh h)).

(** ** Sample handlers *)

Definition blank : World := mkWorld [] ∅.

(** A continuation-style handler that writes [s] and calls the next one. *)
Definition say (s : string) : Any :=
  ANext (fun w next => next (emit (WriteBody s) w)).

(** A plain handler that writes [s]. *)
Definition reply (s : string) : http_Handler :=
  fun w => Ret (emit (WriteBody s) w).

(** A plain handler that writes [s] and panics. *)
Definition faulty (s : string) : http_Handler :=
  fun w => Pan (VString s) (emit (WriteBody s) w).

(** A continuation-style handler that writes [s] and panics. *)
Definition crash (s : string) : Any :=
  ANext (fun w next => Pan (VString s) (emit (WriteBody s) w)).

(** A self-registering value after the example in adapter.go: its
    [Register] method registers a handler into the request phase. *)
Definition plugin : Object :=
  mkObject None None
    (Some (fun mw => UsePriority mw "request" 0%Z [AFunc (reply "plugin")])).

(** A self-registering value whose [Register] method does nothing. *)
Definition idle : Object := mkObject None None (Some Ret).

(** A self-registering value whose [Register] method flushes the layer. *)
Definition flusher : Object := mkObject None None (Some (fun mw => Ret (Flush mw))).

(** ** The priority stack *)

Section stack_facts.

Implicit Types (s : Stack) (e : Priority * MiddlewareFunc) (mw : MiddlewareFunc).

Lemma place_perm e s : place e s ≡ₚ e :: s.
Proof.
  induction s as [|x s IH]; simpl; [done|].
  destruct (e.1 <=? x.1)%Z; [done|].
  rewrite IH. apply Permutation_swap.
Qed.

Lemma ordered_perm s : ordered s ≡ₚ s.
Proof.
  induction s as [|e s IH]; simpl; [done|].
  rewrite place_perm. by rewrite IH.
Qed.

Lemma Join_perm s : Join s ≡ₚ s.*2.
Proof. unfold Join. by rewrite ordered_perm. Qed.

Lemma Join_empty : Join [] = [].
Proof. reflexivity. Qed.

Lemma Join_elem mw s : mw ∈ Join s ↔ mw ∈ s.*2.
Proof. by rewrite Join_perm. Qed.

Lemma Join_Push_new order mw s : mw ∈ Join (Push order mw s).
Proof.
  apply Join_elem. unfold Push. rewrite fmap_app.
  apply elem_of_app. right. simpl. apply list_elem_of_singleton. done.
Qed.

Lemma Join_Push_old order mw mw' s : mw' ∈ Join s → mw' ∈ Join (Push order mw s).
Proof.
  rewrite !Join_elem. unfold Push. rewrite fmap_app.
  intros H. apply elem_of_app. by left.
Qed.

Lemma Join_Push_length order mw s : length (Join (Push order mw s)) = S (length (Join s)).
Proof.
  rewrite (Permutation_length (Join_perm _)), (Permutation_length (Join_perm s)).
  unfold Push. rewrite !length_fmap, length_app. simpl. lia.
Qed.

(** Priorities never decrease along the execution order. *)
Lemma place_sorted e s : StronglySorted by_priority s → StronglySorted by_priority (place e s).
Proof.
  induction 1 as [|x s Hs IH Hx]; simpl.
  - repeat constructor.
  - destruct (Z.leb_spec e.1 x.1) as [Hle|Hlt].
    + constructor; [by constructor|].
      constructor; [done|].
      eapply Forall_impl; [exact Hx|]. unfold by_priority. simpl. lia.
    + constructor; [done|].
      rewrite place_perm. constructor; [|done].
      unfold by_priority. lia.
Qed.

Lemma ordered_sorted s : StronglySorted by_priority (ordered s).
Proof.
  induction s as [|e s IH]; simpl; [constructor|]. by apply place_sorted.
Qed.

End stack_facts.

(** The example of section 8: priorities 5, 1, 5 in that insertion order
    run as second, first, third. *)
Example Join_stable (p1 p2 p3 : MiddlewareFunc) :
  Join (Push 5%Z p3 (Push 1%Z p2 (Push 5%Z p1 []))) = [p2; p1; p3].
Proof. reflexivity. Qed.

(** ** The compile loop *)

Lemma wrap_down_take (queue : list MiddlewareFunc) (n : nat) (h : http_Handler) :
  (n ≤ length queue)%nat → wrap_down queue n h = chain (take n queue) h.
Proof.
  revert h. induction n as [|i IH]; intros h Hn; cbn [wrap_down].
  - reflexivity.
  - destruct (lookup_lt_is_Some_2 queue i) as [mw Hmw]; [lia|].
    unfold MiddlewareFunc in *. rewrite Hmw, IH by lia.
    rewrite (take_S_r _ _ _ Hmw). unfold chain. by rewrite foldr_app.
Qed.

Lemma wrap_down_chain queue h : wrap_down queue (length queue) h = chain queue h.
Proof. rewrite wrap_down_take by lia. by rewrite firstn_all. Qed.

Lemma chain_cons first rest t : chain (first :: rest) t = first (chain rest t).
Proof. reflexivity. Qed.

Lemma chain_empty t : chain [] t = t.
Proof. reflexivity. Qed.

(** ** Running a phase *)

(** The memo test [!ok && h != nil] never holds: an absent key reads as
    the nil handler. *)
Lemma memo_get_miss s phase hm : memo_get s phase ≠ (Some hm, false).
Proof. unfold memo_get. destruct (memo s !! phase); congruence. Qed.

(** So the body always goes on to the pool, whatever the memo holds. *)
Lemma Run_body_compiled s phase h w :
  Run_body s phase h w = (memoized s phase h, compiled s phase h w).
Proof.
  unfold Run_body, memoized, compiled.
  pose proof (memo_get_miss s phase) as Hmiss.
  destruct (memo_get s phase) as [[hm|] [|]]; try (by destruct (Hmiss hm));
    destruct (Pool s !! phase); rewrite ?wrap_down_chain; reflexivity.
Qed.

Lemma Run_compiled s phase h w :
  Run s phase h w = deferred phase (memoized s phase h, compiled s phase h w).
Proof. unfold Run. by rewrite Run_body_compiled. Qed.

(** A run of the error phase is its body: the deferred function does
    nothing. *)
Lemma Run_error_phase s h w : Run s ErrorPhase h w = Run_body s ErrorPhase h w.
Proof. reflexivity. Qed.

Lemma deferred_returned phase s w : deferred phase (s, Ret w) = (s, Ret w).
Proof. unfold deferred. by destruct (decide _). Qed.

Lemma deferred_panicked phase s re w :
  phase ≠ ErrorPhase →
  deferred phase (s, Pan re w) =
    Run s ErrorPhase (Some FinalErrorHandler) (context_Set w "error" re).
Proof.
  intros Hne. unfold deferred. destruct (decide _) as [He|_]; [by destruct Hne|].
  reflexivity.
Qed.

(** Running changes nothing but the memo. *)
Lemma memoized_frame s phase h :
  Pool (memoized s phase h) = Pool s ∧
  stacks (memoized s phase h) = stacks s ∧
  finalHandler (memoized s phase h) = finalHandler s.
Proof. unfold memoized. by destruct (Pool s !! phase). Qed.

Lemma Run_frame s phase h w :
  Pool (Run s phase h w).1 = Pool s ∧
  stacks (Run s phase h w).1 = stacks s ∧
  finalHandler (Run s phase h w).1 = finalHandler s.
Proof.
  rewrite Run_compiled. unfold deferred.
  destruct (decide _); simpl; [apply memoized_frame|].
  destruct (compiled s phase h w); simpl; [apply memoized_frame|].
  rewrite Run_body_compiled. simpl.
  destruct (memoized_frame (memoized s phase h) "error" (Some FinalErrorHandler))
    as (-> & -> & ->).
  apply memoized_frame.
Qed.

Lemma compiled_stack_of s phase h :
  compiled s phase h = chain (Join (default [] (stack_of s phase))) (terminal s h).
Proof. unfold compiled, stack_of. by destruct (Pool s !! phase). Qed.

Lemma compiled_frame s s' phase h :
  Pool s' = Pool s → stacks s' = stacks s → finalHandler s' = finalHandler s →
  compiled s' phase h = compiled s phase h.
Proof.
  intros HP Hs Hf. unfold compiled, terminal, deref. by rewrite HP, Hs, Hf.
Qed.

(** ** Registration *)

Lemma ensure_stack_has phase s : is_Some (Pool (ensure_stack phase s) !! phase).
Proof.
  unfold ensure_stack. destruct (Pool s !! phase) eqn:E; simpl.
  - by rewrite E.
  - rewrite lookup_insert_eq. by eexists.
Qed.

Lemma ensure_stack_known phase s p : Pool s !! phase = Some p → ensure_stack phase s = s.
Proof. intros E. unfold ensure_stack. by rewrite E. Qed.

Lemma ensure_stack_new phase s :
  Pool s !! phase = None → stack_of (ensure_stack phase s) phase = Some [].
Proof.
  intros E. unfold ensure_stack, stack_of, deref. rewrite E. simpl.
  rewrite lookup_insert_eq. simpl. by rewrite lookup_insert_eq.
Qed.

Lemma ensure_stack_stack_of phase s :
  stack_of (ensure_stack phase s) phase = Some (default [] (stack_of s phase)).
Proof.
  destruct (Pool s !! phase) as [p|] eqn:E.
  - rewrite (ensure_stack_known _ _ _ E). unfold stack_of. by rewrite E.
  - rewrite (ensure_stack_new _ _ E). unfold stack_of. by rewrite E.
Qed.

Lemma ensure_stack_frame phase s :
  memo (ensure_stack phase s) = memo s ∧
  finalHandler (ensure_stack phase s) = finalHandler s.
Proof. unfold ensure_stack. by destruct (Pool s !! phase). Qed.

Lemma flush_memo_frame phase s :
  Pool (flush_memo phase s) = Pool s ∧
  stacks (flush_memo phase s) = stacks s ∧
  finalHandler (flush_memo phase s) = finalHandler s.
Proof. done. Qed.

Lemma flush_memo_stack_of phase phase' s :
  stack_of (flush_memo phase s) phase' = stack_of s phase'.
Proof. reflexivity. Qed.

Lemma push_at_stack_of s phase p priority mw :
  Pool s !! phase = Some p →
  stack_of (push_at p priority mw s) phase = Some (Push priority mw (deref s p)).
Proof.
  intros E. unfold stack_of, push_at, deref. simpl. rewrite E. simpl.
  by rewrite lookup_insert_eq.
Qed.

(** [use] always reaches its loop, with the pointer the pool holds for the
    phase. *)
Lemma use_loop s phase priority handler :
  ∃ p, Pool (ensure_stack phase (flush_memo phase s)) !! phase = Some p ∧
       use s phase priority handler =
         register_each (ensure_stack phase (flush_memo phase s)) p priority handler.
Proof.
  destruct (ensure_stack_has phase (flush_memo phase s)) as [p Hp].
  exists p. split; [done|]. unfold use. by rewrite Hp.
Qed.

Lemma register_each_result (r : Res Layer) :
  match r with Ret s' => Ret s' | Pan re s' => Pan re s' end = r.
Proof. by destruct r. Qed.

(** One handler that the adapter accepts is pushed; the memo entry of the
    phase is left nil. *)
Lemma use_adapted s phase priority a mw :
  is_Registrable a = None → AdaptFunc a = Some mw →
  ∃ s', use s phase priority [a] = Ret s' ∧
        memo s' !! phase = Some None ∧
        stack_of s' phase = Some (Push priority mw (default [] (stack_of s phase))) ∧
        finalHandler s' = finalHandler s.
Proof.
  intros Hr Ha. destruct (use_loop s phase priority [a]) as (p & Hp & ->).
  simpl. unfold register. rewrite Hr, Ha.
  eexists. split; [reflexivity|]. split; [|split].
  - simpl. destruct (ensure_stack_frame phase (flush_memo phase s)) as [-> _].
    simpl. by rewrite lookup_insert_eq.
  - rewrite (push_at_stack_of _ _ _ _ _ Hp). f_equal. f_equal.
    pose proof (ensure_stack_stack_of phase (flush_memo phase s)) as H.
    unfold stack_of in H at 1. rewrite Hp in H. simpl in H.
    rewrite flush_memo_stack_of in H. congruence.
  - simpl. by destruct (ensure_stack_frame phase (flush_memo phase s)) as [_ ->].
Qed.

(** A handler that is neither self-registering nor adaptable makes the loop
    panic, at that handler or before. *)
Lemma register_each_unsupported before h after s p priority :
  is_Registrable h = None → AdaptFunc h = None →
  ∃ re s', register_each s p priority (before ++ h :: after) = Pan re s'.
Proof.
  intros Hr Ha. revert s. induction before as [|b before IH]; intros s; simpl.
  - unfold register. rewrite Hr, Ha. by eexists _, _.
  - destruct (register s p priority b) as [s'|re s']; [apply IH|by eexists _, _].
Qed.

(** The loop written in place does what the helper does; only the text of
    the panic differs. *)
Lemma Inline_each_agrees handler s p priority :
  returned (Inline.each s p priority handler) = returned (register_each s p priority handler) ∧
  state_of (Inline.each s p priority handler) = state_of (register_each s p priority handler).
Proof.
  revert s. induction handler as [|h rest IH]; intros s; simpl; [done|].
  unfold register. destruct (is_Registrable h) as [r|].
  - destruct (r s); [apply IH|done].
  - destruct (AdaptFunc h); [apply IH|done].
Qed.

Lemma Inline_register_agrees s phase priority handler :
  returned (Inline.register s phase priority handler) = returned (use s phase priority handler) ∧
  state_of (Inline.register s phase priority handler) = state_of (use s phase priority handler).
Proof.
  unfold Inline.register, use.
  destruct (Pool (ensure_stack phase (flush_memo phase s)) !! phase); [|done].
  apply Inline_each_agrees.
Qed.

(** ** The adapter *)

Lemma AdaptFunc_by_shape h :
  AdaptFunc h = first_shape h ≫= (fun sh => normalize sh h).
Proof. by destruct h as [f| |f|f|f|[[g|] [k|] r]|s|n|]. Qed.

(** C5, as stated, fails: the nil function of type
    [func(http.Handler) http.Handler] has the first shape, and the adapter
    returns it as it is, nil. *)
Lemma AdaptFunc_nil_function :
  has_shape ChainFunc ANilMiddleware = true ∧
  first_shape ANilMiddleware = Some ChainFunc ∧
  AdaptFunc ANilMiddleware = None.
Proof. done. Qed.

(** C5, amended.  [AdaptFunc] tries the six shapes in their fixed order
    and the first that matches decides the result: it is the canonical
    form of the value taken as that shape.  It returns a non-nil
    [MiddlewareFunc] for every value that has one of the six shapes, the
    nil function of the first shape apart, which comes back as nil; it
    returns nil for every value without a shape; being a total function,
    it never panics. *)
Theorem AdaptFunc_first_match (h : Any) :
  AdaptFunc h = first_shape h ≫= (fun sh => normalize sh h) ∧
  (∀ sh, has_shape sh h = true → h ≠ ANilMiddleware → is_Some (AdaptFunc h)) ∧
  AdaptFunc ANilMiddleware = None ∧
  ((∀ sh, has_shape sh h = false) → AdaptFunc h = None).
Proof.
  destruct h as [f| |f|f|f|[[g|] [k|] r]|s|n|];
    (split; [reflexivity|split; [|split; [reflexivity|]]]).
  all: try (intros sh Hsh Hnil; destruct sh; simpl in Hsh;
            first [discriminate Hsh | by destruct Hnil | by eexists]).
  all: intros H;
    first [ reflexivity
          | discriminate (H ChainFunc) | discriminate (H ResultFunc)
          | discriminate (H ContinuationFunc) | discriminate (H SimpleFunc)
          | discriminate (H DirectHandler) | discriminate (H CapabilityObject) ].
Qed.

Lemma AdaptFunc_first_match_witness :
  has_shape SimpleFunc (AFunc (reply "A")) = true ∧
  AFunc (reply "A") ≠ ANilMiddleware ∧
  is_Some (AdaptFunc (AFunc (reply "A"))).
Proof.
  split; [reflexivity|]. split; [discriminate|].
  exact (proj1 (proj2 (AdaptFunc_first_match (AFunc (reply "A"))))
           SimpleFunc eq_refl ltac:(discriminate)).
Defined.

Lemma supported_false h :
  supported h = false ↔ is_Registrable h = None ∧ AdaptFunc h = None.
Proof.
  unfold supported. rewrite orb_false_iff, !bool_decide_eq_false.
  rewrite <- AdaptFunc_by_shape, <- !eq_None_not_Some. done.
Qed.

(** Registering the nil function panics like any unsupported value. *)
Example Use_nil_function_panics :
  UsePriority New "request" 0%Z [ANilMiddleware] =
    Pan unsupported (ensure_stack "request" (flush_memo "request" New)).
Proof. reflexivity. Qed.

(** A value that is both an [http.Handler] and a [Handler] is taken as the
    former: the fifth check comes before the sixth. *)
Example AdaptFunc_both (g : http_Handler) (k : HandlerFuncNext) r next :
  AdaptFunc (AObject (mkObject (Some g) (Some k) r)) = Some (adaptNativeHandler g) ∧
  adaptNativeHandler g next = g.
Proof. done. Qed.

(** Values of a defined function type such as [MiddlewareFunc] itself, with
    no method, strings and numbers are not adapted. *)
Example AdaptFunc_rejects s n :
  AdaptFunc (AString s) = None ∧ AdaptFunc (AInt n) = None ∧ AdaptFunc ANil = None ∧
  AdaptFunc (AObject (mkObject None None None)) = None.
Proof. done. Qed.

(** ** Compilation of a phase *)

(** C4. For a phase that has a stack, [Run] folds the sequence given by
    [Join] from its last handler to its first around the terminal: the
    loop equals the right fold [chain], whose outermost handler is the
    first of the sequence; that one handler is memoized and invoked. *)
Theorem Run_composes_right_to_left s phase stack h w :
  Pool s !! phase = Some stack →
  let queue := Join (deref s stack) in
  let t := terminal s h in
  wrap_down queue (length queue) t = chain queue t ∧
  (∀ first rest, queue = first :: rest → chain queue t = first (chain rest t)) ∧
  Run s phase h w =
    deferred phase
      (set_memo (<[phase := Some (chain queue t)]> (memo s)) s, chain queue t w).
Proof.
  intros Hp queue t. split; [apply wrap_down_chain|]. split.
  - by intros first rest ->.
  - rewrite Run_compiled. unfold memoized, compiled. by rewrite Hp.
Qed.

Lemma Run_composes_right_to_left_witness :
  let s := state_of (UsePriority New "request" 0%Z [say "A"; say "B"]) in
  Pool s !! "request" = Some 1%positive ∧
  (Run s "request" (Some (reply "end")) blank).2 =
    Ret (mkWorld [WriteBody "A"; WriteBody "B"; WriteBody "end"] ∅).
Proof.
  intros s. split; [reflexivity|].
  destruct (Run_composes_right_to_left s "request" 1%positive
              (Some (reply "end")) blank eq_refl) as (_ & _ & ->).
  reflexivity.
Defined.

(** C9, as stated, fails: on a phase without a stack the terminal is not
    the only handler to execute when it panics outside the error phase.
    The failure trap then runs the error phase: here a handler registered
    there, and [FinalErrorHandler] after it. *)
Lemma Run_without_stack_trapped :
  Pool (state_of (use New "error" 0%Z [say "E"])) !! "request" = None ∧
  faulty "boom" blank = Pan (VString "boom") (mkWorld [WriteBody "boom"] ∅) ∧
  (Run (state_of (use New "error" 0%Z [say "E"])) "request"
     (Some (faulty "boom")) blank).2 =
    Ret (mkWorld [WriteBody "boom"; WriteBody "E"; WriteHeader 500;
                  WriteBody "vinxi: internal server error"]
                 {["error" := VString "boom"]}).
Proof. split; [reflexivity|]. split; reflexivity. Qed.

(** C9, amended.  When the pool has no stack for the phase, the one
    handler the body of [Run] invokes is the terminal: the handler passed
    in, or the final handler of the layer when nil is passed; nothing is
    memoized.  When the terminal returns, or the phase is the error phase,
    that is all [Run] does and no other handler executes.  When the
    terminal panics on another phase, the failure trap runs the error
    phase on the request with the panic value under ["error"]. *)
Theorem Run_without_stack s phase h w :
  Pool s !! phase = None →
  terminal s h = match h with Some t => t | None => finalHandler s end ∧
  Run_body s phase h w = (s, terminal s h w) ∧
  Run s phase h w = deferred phase (s, terminal s h w) ∧
  (phase = ErrorPhase ∨ returned (terminal s h w) = true →
   Run s phase h w = (s, terminal s h w)) ∧
  (phase ≠ ErrorPhase → ∀ re w', terminal s h w = Pan re w' →
   Run s phase h w =
     Run s ErrorPhase (Some FinalErrorHandler) (context_Set w' "error" re)).
Proof.
  intros Hp.
  assert (Run_body s phase h w = (s, terminal s h w)) as Hbody.
  { rewrite Run_body_compiled. unfold memoized, compiled. by rewrite Hp. }
  split; [by destruct h|]. split; [done|].
  unfold Run at 1 2. rewrite Hbody. split; [done|]. split.
  - intros [->|Hret]; [done|].
    destruct (terminal s h w); [apply deferred_returned|done].
  - intros Hne re w' Hpan. unfold Run at 1. rewrite Hbody, Hpan.
    by apply deferred_panicked.
Qed.

Lemma Run_without_stack_witness :
  Pool New !! "request" = None ∧
  Run New "request" None blank =
    (New, Ret (mkWorld [WriteHeader 502; WriteBody "vinxi: cannot route request"] ∅)).
Proof.
  split; [reflexivity|].
  destruct (Run_without_stack New "request" None blank eq_refl) as (_ & _ & _ & H & _).
  rewrite H; [reflexivity|by right].
Defined.

(** ** The failure trap *)

(** C2. When the body of a run of a phase other than the error phase
    panics -- the handler it invokes is the composed chain or the terminal
    -- the panic is recovered, its value is stored in the context under
    ["error"], and [Run] is called for the error phase with
    [FinalErrorHandler] as terminal.  That inner run is not trapped again:
    it ends as its own body ends. *)
Theorem Run_recovers_to_error_phase s phase h w re w' :
  phase ≠ ErrorPhase →
  (Run_body s phase h w).2 = Pan re w' →
  let s' := (Run_body s phase h w).1 in
  let w'' := context_Set w' "error" re in
  compiled s phase h w = Pan re w' ∧
  context w'' !! "error" = Some re ∧
  response w'' = response w' ∧
  Run s phase h w = Run s' ErrorPhase (Some FinalErrorHandler) w'' ∧
  Run s' ErrorPhase (Some FinalErrorHandler) w'' =
    Run_body s' ErrorPhase (Some FinalErrorHandler) w''.
Proof.
  intros Hne Hpan s' w''.
  split; [by rewrite Run_body_compiled in Hpan|].
  split; [apply lookup_insert_eq|]. split; [done|].
  split; [|done].
  unfold Run. destruct (Run_body s phase h w) as [s1 out] eqn:E.
  simpl in Hpan. subst out. by rewrite deferred_panicked.
Qed.

Lemma Run_recovers_to_error_phase_witness :
  let s := state_of (UsePriority New "request" 0%Z [say "A"; crash "boom"; say "B"]) in
  "request" ≠ ErrorPhase ∧
  (Run_body s "request" None blank).2 =
    Pan (VString "boom") (mkWorld [WriteBody "A"; WriteBody "boom"] ∅) ∧
  (Run s "request" None blank).2 =
    Ret (mkWorld [WriteBody "A"; WriteBody "boom"; WriteHeader 500;
                  WriteBody "vinxi: internal server error"]
                 {["error" := VString "boom"]}).
Proof.
  intros s. split; [done|]. split; [reflexivity|].
  destruct (Run_recovers_to_error_phase s "request" None blank (VString "boom")
              (mkWorld [WriteBody "A"; WriteBody "boom"] ∅))
    as (_ & _ & _ & -> & _); [done|reflexivity|reflexivity].
Defined.

(** C3. A run of the error phase is not trapped: when its body panics,
    [Run] ends with the same panic, the same value and the same state of
    the request, which is not sent to any other phase. *)
Theorem Run_error_phase_propagates s h w re w' :
  (Run_body s ErrorPhase h w).2 = Pan re w' →
  Run s ErrorPhase h w = Run_body s ErrorPhase h w ∧
  (Run s ErrorPhase h w).2 = Pan re w'.
Proof. intros Hpan. by rewrite Run_error_phase. Qed.

Lemma Run_error_phase_propagates_witness :
  let s := state_of (UsePriority New "error" 0%Z [crash "again"]) in
  (Run_body s ErrorPhase None blank).2 =
    Pan (VString "again") (mkWorld [WriteBody "again"] ∅) ∧
  (Run s ErrorPhase None blank).2 =
    Pan (VString "again") (mkWorld [WriteBody "again"] ∅).
Proof.
  intros s. split; [reflexivity|].
  exact (proj2 (Run_error_phase_propagates s None blank (VString "again")
                  (mkWorld [WriteBody "again"] ∅) eq_refl)).
Defined.

(** A panic in the error phase entered through the trap goes on to the
    caller of the outer run. *)
Lemma Run_double_fault s phase h w re w' re2 w2 :
  phase ≠ ErrorPhase →
  (Run_body s phase h w).2 = Pan re w' →
  (Run_body (Run_body s phase h w).1 ErrorPhase (Some FinalErrorHandler)
     (context_Set w' "error" re)).2 = Pan re2 w2 →
  (Run s phase h w).2 = Pan re2 w2.
Proof.
  intros Hne Hpan Hpan2. unfold Run.
  destruct (Run_body s phase h w) as [s1 out] eqn:E. simpl in *. subst out.
  by rewrite deferred_panicked.
Qed.

(** ** The memo *)

(** C1. The memoized chain is not what a later run invokes.  After one
    handler is registered and the phase is run with terminal ["first"], the
    memo holds the compiled chain and nothing is registered afterwards; yet
    a second run with terminal ["second"] compiles the stack again, around
    the new terminal, where the memoized chain would have ended in
    ["first"]. *)
Theorem Run_compiles_again (Normal : Priority) :
  let s0 := state_of (Use Normal New "request" [say "A"]) in
  let s1 := (Run s0 "request" (Some (reply "first")) blank).1 in
  ∃ c, memo s1 !! "request" = Some (Some c) ∧
       c blank = Ret (mkWorld [WriteBody "A"; WriteBody "first"] ∅) ∧
       memo_get s1 "request" = (Some c, true) ∧
       Run s1 "request" (Some (reply "second")) blank =
         (set_memo (<["request" := Some (compiled s1 "request" (Some (reply "second")))]>
                      (memo s1)) s1,
          Ret (mkWorld [WriteBody "A"; WriteBody "second"] ∅)).
Proof.
  intros s0 s1. eexists. split; [reflexivity|]. split; [reflexivity|].
  split; [reflexivity|]. reflexivity.
Qed.

(** Whatever the memo holds, a run does what it does with an empty memo. *)
Lemma Run_memo_irrelevant s m phase h w :
  (Run (set_memo m s) phase h w).2 = (Run s phase h w).2.
Proof.
  rewrite !Run_compiled.
  rewrite (compiled_frame s (set_memo m s)) by done.
  unfold deferred. destruct (decide _); [done|].
  simpl. destruct (compiled s phase h w); [done|].
  rewrite !Run_body_compiled. simpl.
  apply (f_equal (fun c : http_Handler => c _)).
  apply compiled_frame; unfold memoized; simpl; by destruct (Pool s !! phase).
Qed.

(** ** Flush *)

Lemma Flush_frame s :
  Pool (Flush s) = ∅ ∧ memo (Flush s) = memo s ∧
  finalHandler (Flush s) = finalHandler s ∧ stacks (Flush s) = stacks s.
Proof. done. Qed.

(** C8. [Flush] replaces the pool and keeps the memo.  After a handler is
    registered and the phase is run, the chain memoized for the phase is
    still in the memo of the flushed layer, although the pool is empty. *)
Theorem Flush_keeps_memo (Normal : Priority) :
  let s0 := state_of (Use Normal New "request" [say "A"]) in
  let s1 := (Run s0 "request" None blank).1 in
  ∃ c, memo s1 !! "request" = Some (Some c) ∧
       memo (Flush s1) !! "request" = Some (Some c) ∧
       c blank = Ret (mkWorld [WriteBody "A"; WriteHeader 502;
                               WriteBody "vinxi: cannot route request"] ∅) ∧
       Pool (Flush s1) = ∅.
Proof.
  intros s0 s1. eexists. split; [reflexivity|]. split; [reflexivity|].
  split; reflexivity.
Qed.

(** The rest of what is said of [Flush] holds: every phase runs as on a
    new layer with the same final handler, the terminal alone.  The entries
    left in the memo do not show, since no run reads them. *)
Lemma Run_after_Flush s phase h w :
  Run (Flush s) phase h w = deferred phase (Flush s, terminal s h w) ∧
  (Run (Flush s) phase h w).2 = (Run (UseFinalHandler (finalHandler s) New) phase h w).2.
Proof.
  assert (∀ s', Pool s' = ∅ → ∀ ph t v,
            Run s' ph t v = deferred ph (s', terminal s' t v)) as Hempty.
  { intros s' Hs' ph t v. rewrite Run_compiled. unfold memoized, compiled.
    by rewrite Hs', lookup_empty. }
  split; [by rewrite Hempty|].
  rewrite !Hempty by done.
  change (terminal (Flush s) h w) with (terminal s h w).
  change (terminal (UseFinalHandler (finalHandler s) New) h w) with (terminal s h w).
  unfold deferred. destruct (decide _); [done|]. simpl.
  destruct (terminal s h w); [done|].
  rewrite !Run_body_compiled. simpl. unfold compiled. simpl.
  by rewrite !lookup_empty.
Qed.

(** ** Registration through [Use] and [UsePriority] *)

Lemma Use_UsePriority Normal s phase handler :
  Use Normal s phase handler = UsePriority s phase Normal handler.
Proof. reflexivity. Qed.

(** C6. A call of [Use] or [UsePriority] with a handler that is neither
    self-registering nor of one of the six shapes panics, wherever the
    handler stands among the arguments; it does not return.  When the
    handler comes first, the panic is the one [register] raises, and
    nothing has been pushed. *)
Theorem unsupported_handler_panics Normal s phase priority before h after :
  supported h = false →
  (∃ re s', UsePriority s phase priority (before ++ h :: after) = Pan re s') ∧
  (∃ re s', Use Normal s phase (before ++ h :: after) = Pan re s') ∧
  UsePriority s phase priority (h :: after) =
    Pan unsupported (ensure_stack phase (flush_memo phase s)).
Proof.
  intros [Hr Ha]%supported_false.
  assert (∀ pr, ∃ re s', use s phase pr (before ++ h :: after) = Pan re s') as Hany.
  { intros pr. destruct (use_loop s phase pr (before ++ h :: after)) as (p & _ & ->).
    by apply register_each_unsupported. }
  split; [apply Hany|]. split; [apply Hany|].
  unfold UsePriority. destruct (use_loop s phase priority (h :: after)) as (p & _ & ->).
  simpl. unfold register. by rewrite Hr, Ha.
Qed.

Lemma unsupported_handler_panics_witness :
  supported (AString "not a handler") = false ∧
  UsePriority New "request" 0%Z [AString "not a handler"; say "B"] =
    Pan unsupported (ensure_stack "request" (flush_memo "request" New)).
Proof.
  split; [reflexivity|].
  exact (proj2 (proj2 (unsupported_handler_panics 0%Z New "request" 0%Z []
                         (AString "not a handler") [say "B"] eq_refl))).
Defined.

(** C7. Registering a handler into a phase that was run before leaves the
    memo entry of the phase nil and the handler in the stack of the phase.
    The run before the registration executes the chain of the old stack;
    the next run executes the chain of the stack with the new handler in
    it. *)
Theorem registration_invalidates s phase h0 w0 priority a mw h1 w1 :
  is_Registrable a = None → AdaptFunc a = Some mw →
  let st := default [] (stack_of s phase) in
  let s1 := (Run s phase h0 w0).1 in
  ∃ s2, UsePriority s1 phase priority [a] = Ret s2 ∧
        memo s2 !! phase = Some None ∧
        stack_of s2 phase = Some (Push priority mw st) ∧
        mw ∈ Join (Push priority mw st) ∧
        length (Join (Push priority mw st)) = S (length (Join st)) ∧
        Run s phase h0 w0 =
          deferred phase (memoized s phase h0, chain (Join st) (terminal s h0) w0) ∧
        Run s2 phase h1 w1 =
          deferred phase
            (memoized s2 phase h1, chain (Join (Push priority mw st)) (terminal s h1) w1).
Proof.
  intros Hr Ha st s1.
  destruct (Run_frame s phase h0 w0) as (HP & Hst & Hf). fold s1 in HP, Hst, Hf.
  assert (stack_of s1 phase = stack_of s phase) as Hsame.
  { unfold stack_of, deref. by rewrite HP, Hst. }
  destruct (use_adapted s1 phase priority a mw Hr Ha) as (s2 & Huse & Hmemo & Hstack & Hfin).
  rewrite Hsame in Hstack. fold st in Hstack.
  exists s2. split; [done|]. split; [done|]. split; [done|].
  split; [apply Join_Push_new|]. split; [apply Join_Push_length|].
  split.
  - rewrite Run_compiled. by rewrite compiled_stack_of.
  - rewrite Run_compiled. rewrite compiled_stack_of, Hstack. simpl.
    unfold terminal. by rewrite Hfin, Hf.
Qed.

Lemma registration_invalidates_witness :
  let s := state_of (UsePriority New "request" 0%Z [say "A"]) in
  let s1 := (Run s "request" (Some (reply "end")) blank).1 in
  let s2 := state_of (UsePriority s1 "request" 0%Z [say "B"]) in
  is_Registrable (say "B") = None ∧
  is_Some (AdaptFunc (say "B")) ∧
  (Run s "request" (Some (reply "end")) blank).2 =
    Ret (mkWorld [WriteBody "A"; WriteBody "end"] ∅) ∧
  memo s1 !! "request" ≠ Some None ∧
  memo s2 !! "request" = Some None ∧
  (Run s2 "request" (Some (reply "end")) blank).2 =
    Ret (mkWorld [WriteBody "A"; WriteBody "B"; WriteBody "end"] ∅).
Proof.
  intros s s1 s2. split; [reflexivity|]. split; [by eexists|].
  destruct (registration_invalidates s "request" (Some (reply "end")) blank 0%Z
              (say "B") _ (Some (reply "end")) blank eq_refl eq_refl)
    as (s2' & Huse & Hmemo & _ & _ & _ & Hbefore & Hafter).
  assert (s2' = s2) as -> by (symmetry; exact (f_equal state_of Huse)).
  split; [by rewrite Hbefore|]. split; [discriminate|]. split; [exact Hmemo|].
  by rewrite Hafter.
Defined.

(** ** Self-registering handlers *)

(** C10, as stated, fails: registering nothing but a self-registering
    value into the request phase of a new layer leaves an entry in the
    stack of that phase when its [Register] method registers a handler
    there, as the one in the comment of [Registrable] does. *)
Lemma Registrable_fills_named_phase :
  is_Some (is_Registrable (AObject plugin)) ∧
  ∃ s', UsePriority New "request" 0%Z [AObject plugin] = Ret s' ∧
        stack_of s' "request" = Some [(0%Z, adaptHandlerFunc (reply "plugin"))] ∧
        stack_of s' "request" ≠ Some [].
Proof.
  split; [by eexists|]. eexists. split; [reflexivity|]. split; [reflexivity|].
  discriminate.
Qed.

(** C10, amended.  For a value with a [Register] method, [Use] and
    [UsePriority] neither adapt it nor push it: after the memo entry of the
    phase is reset and its stack created, they call [Register] once with
    the layer and end as that call ends.  The stack handed to [Register] is
    empty when the phase had none, and stays so when [Register] leaves the
    stack of the phase alone. *)
Theorem Registrable_registers_itself Normal s phase priority o r :
  Register o = Some r →
  let s0 := ensure_stack phase (flush_memo phase s) in
  UsePriority s phase priority [AObject o] = r s0 ∧
  Use Normal s phase [AObject o] = r s0 ∧
  (Pool s !! phase = None → stack_of s0 phase = Some []) ∧
  (Pool s !! phase = None →
   ∀ s', r s0 = Ret s' → stack_of s' phase = stack_of s0 phase →
         stack_of s' phase = Some []).
Proof.
  intros Hreg s0.
  assert (∀ pr, use s phase pr [AObject o] = r s0) as Huse.
  { intros pr. destruct (use_loop s phase pr [AObject o]) as (p & _ & ->).
    simpl. unfold register. simpl. rewrite Hreg. apply register_each_result. }
  assert (Pool s !! phase = None → stack_of s0 phase = Some []) as Hnew.
  { intros Hp. by apply ensure_stack_new. }
  split; [apply Huse|]. split; [apply Huse|]. split; [done|].
  intros Hp s' _ ->. by apply Hnew.
Qed.

Lemma Registrable_registers_itself_witness :
  Register idle = Some Ret ∧
  ∃ s', UsePriority New "request" 0%Z [AObject idle] = Ret s' ∧
        stack_of s' "request" = Some [].
Proof.
  split; [reflexivity|].
  destruct (Registrable_registers_itself 0%Z New "request" 0%Z idle Ret eq_refl)
    as (Huse & _ & Hnew & _).
  eexists. split; [exact Huse|]. by apply Hnew.
Defined.

(** ** Phases are independent *)

Lemma New_well_formed : well_formed New.
Proof. split; intros *; simpl; by rewrite lookup_empty. Qed.

Lemma Flush_well_formed s : well_formed (Flush s).
Proof. split; intros *; simpl; by rewrite lookup_empty. Qed.

Lemma ensure_stack_well_formed phase s : well_formed s → well_formed (ensure_stack phase s).
Proof.
  intros [Hd Hi]. unfold ensure_stack. destruct (Pool s !! phase) eqn:E; [done|].
  pose proof (is_fresh (dom (stacks s))) as Hfresh.
  set (p := fresh (dom (stacks s))) in *.
  assert (∀ ph q, Pool s !! ph = Some q → q ≠ p) as Hne.
  { intros ph q Hq ->. apply Hfresh, elem_of_dom. by eapply Hd. }
  split; simpl.
  - intros ph q. rewrite lookup_insert. destruct (decide (phase = ph)) as [<-|].
    + intros [= <-]. rewrite lookup_insert_eq. by eexists.
    + intros Hq. rewrite lookup_insert_ne; [by eapply Hd|]. intros <-. by eapply Hne.
  - intros ph1 ph2 q. rewrite !lookup_insert.
    destruct (decide (phase = ph1)) as [<-|], (decide (phase = ph2)) as [<-|]; try done.
    + intros [= <-] Hq. by destruct (Hne _ _ Hq).
    + intros Hq [= <-]. by destruct (Hne _ _ Hq).
    + apply Hi.
Qed.

Lemma push_at_well_formed p priority mw s : well_formed s → well_formed (push_at p priority mw s).
Proof.
  intros [Hd Hi]. split; simpl; [|done].
  intros ph q Hq. rewrite lookup_insert. destruct (decide (p = q)); [by eexists|by eapply Hd].
Qed.

Lemma push_at_other s phase p q priority mw :
  well_formed s → Pool s !! phase = Some q → q ≠ p →
  stack_of (push_at p priority mw s) phase = stack_of s phase.
Proof.
  intros _ Hq Hne. unfold stack_of, deref. simpl. rewrite Hq. simpl.
  by rewrite lookup_insert_ne.
Qed.

Lemma ensure_stack_other phase phase' s :
  well_formed s → phase' ≠ phase →
  stack_of (ensure_stack phase s) phase' = stack_of s phase'.
Proof.
  intros [Hd _] Hne. unfold ensure_stack. destruct (Pool s !! phase) eqn:E; [done|].
  unfold stack_of, deref. simpl. rewrite lookup_insert_ne by done.
  destruct (Pool s !! phase') as [q|] eqn:Hq; [simpl|done].
  rewrite lookup_insert_ne; [done|].
  intros <-. apply (is_fresh (dom (stacks s))), elem_of_dom. by eapply Hd.
Qed.

Lemma use_adapted_other s phase priority a mw phase' :
  well_formed s → phase' ≠ phase →
  is_Registrable a = None → AdaptFunc a = Some mw →
  ∃ s', use s phase priority [a] = Ret s' ∧
        stack_of s' phase' = stack_of s phase' ∧
        memo s' !! phase' = memo s !! phase' ∧
        well_formed s'.
Proof.
  intros Hwf Hne Hr Ha.
  destruct (use_loop s phase priority [a]) as (p & Hp & ->).
  simpl. unfold register. rewrite Hr, Ha.
  assert (well_formed (ensure_stack phase (flush_memo phase s))) as Hwf0.
  { by apply ensure_stack_well_formed. }
  eexists. split; [reflexivity|]. split; [|split].
  - rewrite <- (flush_memo_stack_of phase phase' s).
    rewrite <- (ensure_stack_other phase phase' (flush_memo phase s)) by done.
    destruct (Pool (ensure_stack phase (flush_memo phase s)) !! phase') as [q|] eqn:Hq.
    + apply (push_at_other _ _ _ q); [done..|].
      intros ->. apply Hne. by eapply (proj2 Hwf0).
    + unfold stack_of. simpl. by rewrite Hq.
  - simpl. destruct (ensure_stack_frame phase (flush_memo phase s)) as [-> _].
    simpl. by rewrite lookup_insert_ne.
  - by apply push_at_well_formed.
Qed.

Lemma Run_well_formed s phase h w : well_formed s → well_formed (Run s phase h w).1.
Proof.
  intros Hwf. destruct (Run_frame s phase h w) as (HP & Hs & _).
  unfold well_formed. by rewrite HP, Hs.
Qed.

(** ** What a run depends on *)

Lemma memoized_stack_of s phase h phase' :
  stack_of (memoized s phase h) phase' = stack_of s phase'.
Proof.
  destruct (memoized_frame s phase h) as (HP & Hs & _).
  unfold stack_of, deref. by rewrite HP, Hs.
Qed.

(** The outcome of a run is decided by the handlers in the stack of the
    phase, those in the stack of the error phase and the terminal. *)
Lemma Run_outcome_ext s s' phase h w :
  default [] (stack_of s' phase) = default [] (stack_of s phase) →
  default [] (stack_of s' ErrorPhase) = default [] (stack_of s ErrorPhase) →
  terminal s' h = terminal s h →
  (Run s' phase h w).2 = (Run s phase h w).2.
Proof.
  intros Hst Herr Ht. rewrite !Run_compiled.
  assert (compiled s' phase h = compiled s phase h) as ->.
  { by rewrite !compiled_stack_of, Hst, Ht. }
  unfold deferred. destruct (decide _); [done|]. simpl.
  destruct (compiled s phase h w); [done|].
  rewrite !Run_body_compiled. simpl.
  rewrite !compiled_stack_of.
  change "error" with ErrorPhase. by rewrite !memoized_stack_of, Herr.
Qed.

Lemma ensure_stack_deref phase s q : deref (ensure_stack phase s) q = deref s q.
Proof.
  unfold ensure_stack. destruct (Pool s !! phase); [done|].
  unfold deref. simpl. rewrite lookup_insert. case_decide as Hq; [|done].
  subst q. pose proof (is_fresh (dom (stacks s))) as Hfresh.
  apply not_elem_of_dom in Hfresh. unfold Stack in *. by rewrite Hfresh.
Qed.

Lemma ensure_stack_Pool_other phase phase' s :
  phase' ≠ phase → Pool (ensure_stack phase s) !! phase' = Pool s !! phase'.
Proof.
  intros Hne. unfold ensure_stack. destruct (Pool s !! phase); [done|].
  simpl. by rewrite lookup_insert_ne.
Qed.

Lemma ensure_stack_other_handlers phase phase' s :
  phase' ≠ phase →
  default [] (stack_of (ensure_stack phase s) phase') = default [] (stack_of s phase').
Proof.
  intros Hne. unfold stack_of. rewrite ensure_stack_Pool_other by done.
  destruct (Pool s !! phase'); [simpl|done]. apply ensure_stack_deref.
Qed.

Lemma flush_memo_well_formed phase s : well_formed s → well_formed (flush_memo phase s).
Proof. done. Qed.

Lemma use_start s phase :
  ∃ p, Pool (ensure_stack phase (flush_memo phase s)) !! phase = Some p ∧
       deref (ensure_stack phase (flush_memo phase s)) p = default [] (stack_of s phase).
Proof.
  destruct (ensure_stack_has phase (flush_memo phase s)) as [p Hp].
  exists p. split; [done|].
  pose proof (ensure_stack_stack_of phase (flush_memo phase s)) as H.
  unfold stack_of in H at 1. rewrite Hp in H. simpl in H.
  rewrite flush_memo_stack_of in H. congruence.
Qed.

Lemma push_at_deref s p priority mw :
  deref (push_at p priority mw s) p = deref s p ++ [(priority, mw)].
Proof. unfold deref, push_at. simpl. by rewrite lookup_insert_eq. Qed.

(** Handlers the adapter accepts are pushed one after the other through
    the same pointer; nothing else of the layer changes. *)
Lemma register_each_adapted s p priority hs mws :
  Forall2 (fun a mw => is_Registrable a = None ∧ AdaptFunc a = Some mw) hs mws →
  ∃ s', register_each s p priority hs = Ret s' ∧
        Pool s' = Pool s ∧ memo s' = memo s ∧ finalHandler s' = finalHandler s ∧
        deref s' p = deref s p ++ map (pair priority) mws ∧
        (∀ q, q ≠ p → stacks s' !! q = stacks s !! q) ∧
        (∀ q, is_Some (stacks s !! q) → is_Some (stacks s' !! q)).
Proof.
  intros Hall. revert s.
  induction Hall as [|a mw hs mws [Hr Ha] _ IH]; intros s; simpl.
  - exists s. by rewrite app_nil_r.
  - unfold register. rewrite Hr, Ha.
    destruct (IH (push_at p priority mw s)) as (s' & -> & HP & Hm & Hf & Hd & Hq & Hdom).
    exists s'. split; [done|]. split; [done|]. split; [done|]. split; [done|].
    split; [|split].
    + by rewrite Hd, push_at_deref, <- app_assoc.
    + intros q Hne. rewrite (Hq q Hne). simpl. by rewrite lookup_insert_ne.
    + intros q Hsome. apply Hdom. simpl. rewrite lookup_insert.
      case_decide; [by eexists|done].
Qed.

Lemma register_each_app s p priority l1 l2 :
  register_each s p priority (l1 ++ l2) =
    match register_each s p priority l1 with
    | Ret s' => register_each s' p priority l2
    | Pan re s' => Pan re s'
    end.
Proof.
  revert s. induction l1 as [|h l1 IH]; intros s; simpl; [done|].
  destruct (register s p priority h); [apply IH|done].
Qed.

(** ** Further properties of the layer *)

(** X1. After [UseFinalHandler fn], a run that is given no terminal ends
    the chain of any phase with [fn]; a run that is given a terminal does
    what it did before, whatever the final handler is. *)
Theorem UseFinalHandler_default_terminal fn s phase w :
  Run (UseFinalHandler fn s) phase None w =
    deferred phase
      (memoized (UseFinalHandler fn s) phase None,
       chain (Join (default [] (stack_of s phase))) fn w) ∧
  ∀ t, (Run (UseFinalHandler fn s) phase (Some t) w).2 = (Run s phase (Some t) w).2.
Proof.
  split.
  - rewrite Run_compiled. by rewrite compiled_stack_of.
  - intros t. by apply Run_outcome_ext.
Qed.

(** X2. Runs do not influence later runs: after a run of any phase, a run
    ends as it would have ended without the earlier one. *)
Theorem Run_repeatable s phase h w phase' h' w' :
  (Run (Run s phase h w).1 phase' h' w').2 = (Run s phase' h' w').2.
Proof.
  destruct (Run_frame s phase h w) as (HP & Hs & Hf).
  apply Run_outcome_ext; unfold stack_of, deref, terminal; by rewrite ?HP, ?Hs, ?Hf.
Qed.

(** X3. A run registers and removes nothing: the stack of every phase and
    the final handler are as before, and the only memo entries it may
    write are those of the phase it ran and of the error phase. *)
Theorem Run_changes_memo_only s phase h w :
  (∀ phase', stack_of (Run s phase h w).1 phase' = stack_of s phase') ∧
  finalHandler (Run s phase h w).1 = finalHandler s ∧
  (∀ key, key ≠ phase → key ≠ ErrorPhase →
     memo (Run s phase h w).1 !! key = memo s !! key).
Proof.
  destruct (Run_frame s phase h w) as (HP & Hs & Hf).
  split; [|split; [done|]].
  - intros phase'. unfold stack_of, deref. by rewrite HP, Hs.
  - intros key Hk He.
    assert (∀ s0 ph t, key ≠ ph → memo (memoized s0 ph t) !! key = memo s0 !! key) as Hmemo.
    { intros s0 ph t Hne. unfold memoized. destruct (Pool s0 !! ph); [simpl|done].
      by rewrite lookup_insert_ne. }
    rewrite Run_compiled. unfold deferred. destruct (decide _); simpl; [by apply Hmemo|].
    destruct (compiled s phase h w); simpl; [by apply Hmemo|].
    rewrite Run_body_compiled. simpl. rewrite Hmemo by done. by apply Hmemo.
Qed.

(** X4. [use] with handlers the adapter accepts appends all of them to the
    stack of the phase, in the order of the arguments and with the one
    priority, and leaves the memo entry of the phase nil. *)
Theorem use_pushes_in_order s phase priority hs mws :
  Forall2 (fun a mw => is_Registrable a = None ∧ AdaptFunc a = Some mw) hs mws →
  ∃ s', use s phase priority hs = Ret s' ∧
        stack_of s' phase =
          Some (default [] (stack_of s phase) ++ map (pair priority) mws) ∧
        memo s' !! phase = Some None ∧
        finalHandler s' = finalHandler s.
Proof.
  intros Hall. destruct (use_start s phase) as (p & Hp & Hd).
  unfold use. rewrite Hp.
  destruct (register_each_adapted (ensure_stack phase (flush_memo phase s)) p priority hs mws Hall)
    as (s' & -> & HP & Hm & Hf & Hd' & _ & _).
  exists s'. split; [done|]. split; [|split].
  - unfold stack_of. rewrite HP, Hp. simpl. by rewrite Hd', Hd.
  - rewrite Hm. destruct (ensure_stack_frame phase (flush_memo phase s)) as [-> _].
    simpl. by rewrite lookup_insert_eq.
  - rewrite Hf. by destruct (ensure_stack_frame phase (flush_memo phase s)) as [_ ->].
Qed.

Lemma use_pushes_in_order_witness :
  Forall2 (fun a mw => is_Registrable a = None ∧ AdaptFunc a = Some mw)
    [AFunc (reply "A"); AMiddleware (fun next => next)]
    [adaptHandlerFunc (reply "A"); fun next => next] ∧
  ∃ s', use New "request" 7%Z [AFunc (reply "A"); AMiddleware (fun next => next)] = Ret s' ∧
        stack_of s' "request" =
          Some [(7%Z, adaptHandlerFunc (reply "A")); (7%Z, fun next => next)].
Proof.
  assert (Forall2 (fun a mw => is_Registrable a = None ∧ AdaptFunc a = Some mw)
            [AFunc (reply "A"); AMiddleware (fun next => next)]
            [adaptHandlerFunc (reply "A"); fun next => next]) as Hall.
  { repeat constructor. }
  split; [exact Hall|].
  destruct (use_pushes_in_order New "request" 7%Z _ _ Hall) as (s' & Huse & Hst & _).
  exists s'. split; [exact Huse|exact Hst].
Defined.

(** X5. A registration that panics is not undone: the handlers before the
    unsupported one stay in the stack, the memo entry stays nil, and the
    handlers after it are never looked at. *)
Theorem use_panic_keeps_earlier s phase priority good mws bad rest :
  Forall2 (fun a mw => is_Registrable a = None ∧ AdaptFunc a = Some mw) good mws →
  supported bad = false →
  ∃ s', use s phase priority (good ++ bad :: rest) = Pan unsupported s' ∧
        stack_of s' phase =
          Some (default [] (stack_of s phase) ++ map (pair priority) mws) ∧
        memo s' !! phase = Some None.
Proof.
  intros Hall [Hr Ha]%supported_false.
  destruct (use_start s phase) as (p & Hp & Hd).
  unfold use. rewrite Hp, register_each_app.
  destruct (register_each_adapted (ensure_stack phase (flush_memo phase s)) p priority good mws Hall)
    as (s' & -> & HP & Hm & _ & Hd' & _ & _).
  simpl. unfold register. rewrite Hr, Ha.
  exists s'. split; [done|]. split.
  - unfold stack_of. rewrite HP, Hp. simpl. by rewrite Hd', Hd.
  - rewrite Hm. destruct (ensure_stack_frame phase (flush_memo phase s)) as [-> _].
    simpl. by rewrite lookup_insert_eq.
Qed.

Lemma use_panic_keeps_earlier_witness :
  Forall2 (fun a mw => is_Registrable a = None ∧ AdaptFunc a = Some mw)
    [AFunc (reply "A")] [adaptHandlerFunc (reply "A")] ∧
  supported (AInt 3) = false ∧
  ∃ s', use New "request" 7%Z [AFunc (reply "A"); AInt 3; AFunc (reply "B")] =
          Pan unsupported s' ∧
        stack_of s' "request" = Some [(7%Z, adaptHandlerFunc (reply "A"))].
Proof.
  assert (Forall2 (fun a mw => is_Registrable a = None ∧ AdaptFunc a = Some mw)
            [AFunc (reply "A")] [adaptHandlerFunc (reply "A")]) as Hall.
  { repeat constructor. }
  split; [exact Hall|]. split; [reflexivity|].
  destruct (use_panic_keeps_earlier New "request" 7%Z _ _ (AInt 3)
              [AFunc (reply "B")] Hall eq_refl) as (s' & Huse & Hst & _).
  exists s'. split; [exact Huse|exact Hst].
Defined.

(** X6. A plain function handler or an [http.Handler] value ends the chain
    where it stands: it replaces everything after it, the terminal
    included, so the loop yields the handlers before it around it. *)
Theorem plain_handler_cuts_chain a fn mw before after t :
  is_func a = Some fn ∨ is_http_Handler a = Some fn →
  AdaptFunc a = Some mw →
  wrap_down (before ++ mw :: after) (length (before ++ mw :: after)) t =
    chain before fn.
Proof.
  intros Hshape Ha. rewrite wrap_down_chain. unfold chain. rewrite foldr_app. simpl.
  assert (∀ next, mw next = fn) as ->; [|done].
  intros next. destruct a as [f| |f|f|f|[g k r]|?|?|]; destruct Hshape as [H|H];
    simpl in H; try discriminate H.
  - injection H as ->. by injection Ha as <-.
  - subst g. by injection Ha as <-.
Qed.

Lemma plain_handler_cuts_chain_witness :
  (is_func (AFunc (reply "stop")) = Some (reply "stop") ∨
   is_http_Handler (AFunc (reply "stop")) = Some (reply "stop")) ∧
  AdaptFunc (AFunc (reply "stop")) = Some (adaptHandlerFunc (reply "stop")) ∧
  wrap_down [adaptHandlerFunc (reply "stop"); adaptHandlerFunc (reply "never")] 2
    (reply "end") blank = Ret (mkWorld [WriteBody "stop"] ∅).
Proof.
  split; [by left|]. split; [reflexivity|].
  exact (f_equal (fun c : http_Handler => c blank)
           (plain_handler_cuts_chain (AFunc (reply "stop")) (reply "stop")
              (adaptHandlerFunc (reply "stop")) [] [adaptHandlerFunc (reply "never")]
              (reply "end") (or_introl eq_refl) eq_refl)).
Defined.

(** X7. When the chain of a phase other than the error phase panics, the
    run ends as the handlers of the error phase end, composed around
    [FinalErrorHandler] (not the final handler of the layer) and started
    on the request with the panic value under ["error"].  With no error
    handlers, the response written so far is followed by status 500 and
    the fixed body. *)
Theorem panic_ends_in_error_chain s phase h w re w' :
  phase ≠ ErrorPhase →
  (Run_body s phase h w).2 = Pan re w' →
  (Run s phase h w).2 =
    chain (Join (default [] (stack_of s ErrorPhase))) FinalErrorHandler
      (context_Set w' "error" re) ∧
  (stack_of s ErrorPhase = None →
   (Run s phase h w).2 =
     Ret (mkWorld
            (response w' ++ [WriteHeader 500; WriteBody "vinxi: internal server error"])
            (<["error" := re]> (context w')))).
Proof.
  intros Hne Hpan. rewrite Run_body_compiled in Hpan. simpl in Hpan.
  assert ((Run s phase h w).2 =
            chain (Join (default [] (stack_of s ErrorPhase))) FinalErrorHandler
              (context_Set w' "error" re)) as Hrun.
  { rewrite Run_compiled, Hpan, deferred_panicked by done.
    rewrite Run_error_phase, Run_body_compiled. simpl.
    by rewrite compiled_stack_of, memoized_stack_of. }
  split; [done|]. intros Hnone. rewrite Hrun, Hnone. simpl.
  unfold FinalErrorHandler, emit. simpl. by rewrite <- app_assoc.
Qed.

Lemma panic_ends_in_error_chain_witness :
  let s := state_of (use New "request" 0%Z [say "A"; crash "boom"]) in
  "request" ≠ ErrorPhase ∧
  (Run_body s "request" None blank).2 =
    Pan (VString "boom") (mkWorld [WriteBody "A"; WriteBody "boom"] ∅) ∧
  (Run s "request" None blank).2 =
    Ret (mkWorld [WriteBody "A"; WriteBody "boom"; WriteHeader 500;
                  WriteBody "vinxi: internal server error"]
                 {["error" := VString "boom"]}).
Proof.
  intros s. split; [done|]. split; [reflexivity|].
  destruct (panic_ends_in_error_chain s "request" None blank (VString "boom")
              (mkWorld [WriteBody "A"; WriteBody "boom"] ∅)) as [_ H];
    [done|reflexivity|].
  rewrite H; reflexivity.
Defined.

(** X8. After [Flush], registering a handler starts the phase anew: its
    stack holds that handler alone, whatever was registered before, and no
    other phase has a stack. *)
Theorem Flush_then_use s phase priority a mw :
  is_Registrable a = None → AdaptFunc a = Some mw →
  ∃ s', use (Flush s) phase priority [a] = Ret s' ∧
        stack_of s' phase = Some [(priority, mw)] ∧
        (∀ phase', phase' ≠ phase → stack_of s' phase' = None).
Proof.
  intros Hr Ha.
  destruct (use_adapted (Flush s) phase priority a mw Hr Ha) as (s' & Huse & _ & Hst & _).
  exists s'. split; [done|]. split; [exact Hst|].
  intros phase' Hne. revert Huse. unfold use.
  assert (ensure_stack phase (flush_memo phase (Flush s)) =
            set_Pool (<[phase := fresh (dom (stacks s))]> ∅)
              (set_stacks (<[fresh (dom (stacks s)) := []]> (stacks s))
                 (flush_memo phase (Flush s)))) as ->.
  { reflexivity. }
  simpl. rewrite lookup_insert_eq. unfold register. rewrite Hr, Ha.
  intros [= <-]. unfold stack_of. simpl.
  by rewrite lookup_insert_ne, lookup_empty.
Qed.

Lemma Flush_then_use_witness :
  let s := state_of (use New "request" 0%Z [say "old"]) in
  is_Registrable (AFunc (reply "new")) = None ∧
  AdaptFunc (AFunc (reply "new")) = Some (adaptHandlerFunc (reply "new")) ∧
  ∃ s', use (Flush s) "request" 1%Z [AFunc (reply "new")] = Ret s' ∧
        stack_of s' "request" = Some [(1%Z, adaptHandlerFunc (reply "new"))].
Proof.
  intros s. split; [reflexivity|]. split; [reflexivity|].
  destruct (Flush_then_use s "request" 1%Z (AFunc (reply "new")) _ eq_refl eq_refl)
    as (s' & Huse & Hst & _).
  exists s'. split; [exact Huse|exact Hst].
Defined.

(** X9. The two versions of the registration loop, the one calling the
    helper [register] and the one with its body in place, agree: both
    return or both panic, with the same layer; the panic values are equal
    unless both are the message for an unsupported handler, which the two
    files spell differently. *)
Theorem register_versions_agree s phase priority handler :
  match use s phase priority handler, Inline.register s phase priority handler with
  | Ret s1, Ret s2 => s1 = s2
  | Pan re1 s1, Pan re2 s2 =>
      s1 = s2 ∧
      (re1 = re2 ∨
       (re1 = unsupported ∧ re2 = VString "vinci: unsupported middleware interface"))
  | _, _ => False
  end.
Proof.
  unfold use, Inline.register.
  destruct (Pool (ensure_stack phase (flush_memo phase s)) !! phase) as [p|]; [|done].
  generalize (ensure_stack phase (flush_memo phase s)). intros s0.
  revert s0. induction handler as [|a rest IH]; intros s0; simpl; [done|].
  unfold register. destruct (is_Registrable a) as [r|].
  - destruct (r s0); [apply IH|]. split; [done|by left].
  - destruct (AdaptFunc a); [apply IH|]. split; [done|by right].
Qed.

(** X10. Registering no handler at all into a phase without a stack
    still creates its stack, empty.  A run of the phase then ends as it
    did before, by the terminal alone, but now memoizes the terminal,
    which a run of a phase without a stack does not. *)
Theorem use_nothing_creates_stack s phase priority h w :
  Pool s !! phase = None →
  ∃ s', use s phase priority [] = Ret s' ∧
        stack_of s' phase = Some [] ∧
        stack_of s phase = None ∧
        (Run s' phase h w).2 = (Run s phase h w).2 ∧
        memo (Run_body s' phase h w).1 !! phase = Some (Some (terminal s h)) ∧
        memo (Run_body s phase h w).1 = memo s.
Proof.
  intros Hp. destruct (use_loop s phase priority []) as (p & Hp' & Huse).
  simpl in Huse. eexists. split; [exact Huse|].
  assert (stack_of (ensure_stack phase (flush_memo phase s)) phase = Some []) as Hst.
  { by apply ensure_stack_new. }
  assert (∀ phase', default [] (stack_of (ensure_stack phase (flush_memo phase s)) phase')
                    = default [] (stack_of s phase')) as Hsame.
  { intros phase'. destruct (decide (phase' = phase)) as [->|Hne].
    - rewrite Hst. unfold stack_of. by rewrite Hp.
    - by rewrite ensure_stack_other_handlers. }
  split; [done|]. split; [unfold stack_of; by rewrite Hp|]. split; [|split].
  - apply Run_outcome_ext; [apply Hsame..|].
    unfold terminal. by destruct (ensure_stack_frame phase (flush_memo phase s)) as [_ ->].
  - rewrite Run_body_compiled. simpl. unfold memoized. rewrite Hp'. simpl.
    rewrite lookup_insert_eq. do 2 f_equal.
    rewrite compiled_stack_of, Hst. simpl. unfold terminal.
    by destruct (ensure_stack_frame phase (flush_memo phase s)) as [_ ->].
  - rewrite Run_body_compiled. simpl. unfold memoized. by rewrite Hp.
Qed.

Lemma use_nothing_creates_stack_witness :
  Pool New !! "request" = None ∧
  ∃ s', use New "request" 0%Z [] = Ret s' ∧
        stack_of s' "request" = Some [] ∧
        memo (Run_body s' "request" None blank).1 !! "request" = Some (Some FinalHandler).
Proof.
  split; [reflexivity|].
  destruct (use_nothing_creates_stack New "request" 0%Z None blank eq_refl)
    as (s' & Huse & Hst & _ & _ & Hmemo & _).
  exists s'. split; [exact Huse|]. split; [exact Hst|exact Hmemo].
Defined.

(** X11. Registering handlers the adapter accepts into one phase of a
    well-formed layer leaves every other phase as it was: same stack, same
    memo entry, and the layer stays well formed.  Unless the handlers went
    into the error phase, every run of another phase ends as before. *)
Theorem use_leaves_other_phases s phase priority hs mws :
  well_formed s →
  Forall2 (fun a mw => is_Registrable a = None ∧ AdaptFunc a = Some mw) hs mws →
  ∃ s', use s phase priority hs = Ret s' ∧
        well_formed s' ∧
        (∀ phase', phase' ≠ phase →
           stack_of s' phase' = stack_of s phase' ∧
           memo s' !! phase' = memo s !! phase') ∧
        (phase ≠ ErrorPhase →
         ∀ phase' h w, phase' ≠ phase →
           (Run s' phase' h w).2 = (Run s phase' h w).2).
Proof.
  intros Hwf Hall.
  assert (well_formed (ensure_stack phase (flush_memo phase s))) as [Hd0 Hi0].
  { by apply ensure_stack_well_formed. }
  destruct (use_start s phase) as (p & Hp & _).
  unfold use. rewrite Hp.
  destruct (register_each_adapted (ensure_stack phase (flush_memo phase s))
              p priority hs mws Hall) as (s' & -> & HP & Hm & Hf & _ & Hq & Hdom).
  assert (∀ phase', phase' ≠ phase → stack_of s' phase' = stack_of s phase') as Hother.
  { intros phase' Hne.
    rewrite <- (flush_memo_stack_of phase phase' s).
    rewrite <- (ensure_stack_other phase phase' (flush_memo phase s)) by done.
    unfold stack_of. rewrite HP.
    destruct (Pool (ensure_stack phase (flush_memo phase s)) !! phase') as [q|] eqn:E;
      [simpl|done].
    unfold deref. rewrite Hq; [done|].
    intros ->. apply Hne. by eapply Hi0. }
  exists s'. split; [done|]. split; [|split].
  - split.
    + intros ph q. rewrite HP. intros Hph. apply Hdom. by eapply Hd0.
    + intros ph1 ph2 q. rewrite HP. apply Hi0.
  - intros phase' Hne. split; [by apply Hother|].
    rewrite Hm. destruct (ensure_stack_frame phase (flush_memo phase s)) as [-> _].
    simpl. by rewrite lookup_insert_ne.
  - intros Herr phase' h w Hne. apply Run_outcome_ext.
    + by rewrite Hother.
    + by rewrite Hother.
    + unfold terminal. rewrite Hf.
      by destruct (ensure_stack_frame phase (flush_memo phase s)) as [_ ->].
Qed.

Lemma use_leaves_other_phases_witness :
  let s := state_of (use New "error" 0%Z [say "E"]) in
  well_formed s ∧
  Forall2 (fun a mw => is_Registrable a = None ∧ AdaptFunc a = Some mw)
    [AFunc (reply "A")] [adaptHandlerFunc (reply "A")] ∧
  ∃ s', use s "request" 0%Z [AFunc (reply "A")] = Ret s' ∧
        stack_of s' "error" = stack_of s "error".
Proof.
  intros s.
  assert (well_formed s) as Hwf.
  { destruct (use_leaves_other_phases New "error" 0%Z [say "E"]
                [adaptHandlerFuncNext (fun w next => next (emit (WriteBody "E") w))]
                New_well_formed) as (s0 & Huse & Hwf & _); [repeat constructor|].
    unfold s. by rewrite Huse. }
  assert (Forall2 (fun a mw => is_Registrable a = None ∧ AdaptFunc a = Some mw)
            [AFunc (reply "A")] [adaptHandlerFunc (reply "A")]) as Hall.
  { repeat constructor. }
  split; [exact Hwf|]. split; [exact Hall|].
  destruct (use_leaves_other_phases s "request" 0%Z _ _ Hwf Hall)
    as (s' & Huse & _ & Hother & _).
  exists s'. split; [exact Huse|]. by apply Hother.
Defined.

(** X12. A handler that follows, in the same call, a self-registering
    value whose [Register] method flushes the layer is lost: it is pushed
    through the pointer taken before the loop, to a stack the new pool no
    longer holds.  The call returns, the pool is empty, and a run of the
    phase invokes the terminal alone. *)
Theorem Flush_in_Register_drops_rest s phase priority o r a mw :
  Register o = Some r →
  (∀ layer, r layer = Ret (Flush layer)) →
  is_Registrable a = None → AdaptFunc a = Some mw →
  ∃ s', use s phase priority [AObject o; a] = Ret s' ∧
        Pool s' = ∅ ∧
        stack_of s' phase = None ∧
        ∀ h w, Run s' phase h w = deferred phase (s', terminal s h w).
Proof.
  intros Hreg Hflush Hr Ha.
  destruct (use_loop s phase priority [AObject o; a]) as (p & _ & ->).
  simpl. unfold register at 1. simpl. rewrite Hreg, Hflush.
  unfold register. rewrite Hr, Ha.
  eexists. split; [reflexivity|]. split; [done|]. split; [done|].
  intros h w. rewrite Run_compiled. unfold memoized, compiled. simpl.
  rewrite lookup_empty. unfold terminal. simpl.
  by destruct (ensure_stack_frame phase (flush_memo phase s)) as [_ ->].
Qed.

Lemma Flush_in_Register_drops_rest_witness :
  Register flusher = Some (fun layer => Ret (Flush layer)) ∧
  is_Registrable (AFunc (reply "lost")) = None ∧
  AdaptFunc (AFunc (reply "lost")) = Some (adaptHandlerFunc (reply "lost")) ∧
  (Run (state_of (use New "request" 0%Z [AObject flusher; AFunc (reply "lost")]))
     "request" (Some (reply "end")) blank).2 = Ret (mkWorld [WriteBody "end"] ∅).
Proof.
  split; [reflexivity|]. split; [reflexivity|]. split; [reflexivity|].
  destruct (Flush_in_Register_drops_rest New "request" 0%Z flusher _
              (AFunc (reply "lost")) _ eq_refl (fun _ => eq_refl) eq_refl eq_refl)
    as (s' & Huse & _ & _ & Hrun).
  rewrite Huse. simpl. by rewrite Hrun.
Defined.
